(** * SolarPanel exercise: the object model of [objects_relations_SolarPanel.cpp]

    A shallow embedding of the four classes of the exercise ([SolarPanel],
    [PanelSetup], [LightSource], [SolarPlant]) and of the free function
    [LuminationAngle], followed by the properties of the model.

    Conventions of the embedding.
    - [int] is a 32-bit signed integer, held in [Z]; the only [int]
      arithmetic of the program is the product [m_dimx * m_dimy], written
      with the two's-complement wrap-around of the usual targets (C++
      leaves the overflowing product undefined).
    - the [float] values of [SolarPanel] are whole numbers; they are held
      in [Z] and every product is rounded to nearest, ties to even, at 24
      bits ([float]) or 53 bits ([double]), as the program computes it.
    - angles and powers are [double]s held in [R], [std::cos] is the real
      cosine and the operations on them are the real ones: the properties
      stated about them are those that do not lean on an exact product,
      sum or quotient.  The constant [pi] is the program's own, [3.1415],
      not the mathematical one ([PI] of the library).
    - a division whose divisor is zero has no value ([None]).
    - the array [PanelSetup m_setups[10]] is a list, of length 10 in every
      plant a constructor builds ([wf_plant]); an index outside [0..9] is
      outside the array and the write has no value ([None]).
    - [cout] output is not part of the model. *)

From Stdlib Require Import ZArith Reals Lra Lia.
From stdpp Require Import base list.

#[local] Open Scope R_scope.

(** ** Machine integers *)

Module Int32.

Definition min_signed : Z := (- 2 ^ 31)%Z.
Definition max_signed : Z := (2 ^ 31 - 1)%Z.

Definition in_range (z : Z) : Prop := (min_signed <= z <= max_signed)%Z.

(** The representative of [z] in [[-2^31, 2^31)]. *)
Definition wrap (z : Z) : Z := ((z + 2 ^ 31) mod 2 ^ 32 - 2 ^ 31)%Z.

(** [int * int]. *)
Definition mul (x y : Z) : Z := wrap (x * y).

End Int32.

(** ** Floating-point numbers of integral value *)

Module Float.

(** The whole number [z] rounded to [prec] significant bits, to nearest
    with ties to even; exponents never run out for the sizes at hand. *)
Definition round_even (prec z : Z) : Z :=
  (let a := Z.abs z in
   if a <=? 2 ^ prec then z
   else
     let e := Z.log2 a - prec + 1 in
     let q := a / 2 ^ e in
     let r := a mod 2 ^ e in
     let half := 2 ^ (e - 1) in
     let q' := if r <? half then q
               else if half <? r then q + 1
               else if Z.even q then q else q + 1 in
     Z.sgn z * (q' * 2 ^ e))%Z.

(** [int] to [float]. *)
Definition of_int (z : Z) : Z := round_even 24 z.

(** [float * float]. *)
Definition mul32 (x y : Z) : Z := round_even 24 (x * y).

(** [double * double]. *)
Definition mul64 (x y : Z) : Z := round_even 53 (x * y).

End Float.

(** ** [constexpr double pi = 3.1415;] *)

Definition pi : R := 3.1415.

(** ** [class SolarPanel] *)

Record SolarPanel : Type := mkSolarPanel {
  m_dimx : Z;
  m_dimy : Z
}.

Definition oneElementX : Z := 6.
Definition oneElementY : Z := 10.
Definition oneElementPowerinW : Z := 15.

(** The [float] products of [dimXinCM] and [dimYinCM]. *)
Definition dimXinCM_float (p : SolarPanel) : Z :=
  Float.mul32 (Float.of_int (m_dimx p)) oneElementX.
Definition dimYinCM_float (p : SolarPanel) : Z :=
  Float.mul32 (Float.of_int (m_dimy p)) oneElementY.

(** The same, returned as [double] (the promotion is exact). *)
Definition dimXinCM (p : SolarPanel) : R := IZR (dimXinCM_float p).
Definition dimYinCM (p : SolarPanel) : R := IZR (dimYinCM_float p).

(** [dimXinCM() * dimYinCM()], a product of [double]s. *)
Definition areainCM2 (p : SolarPanel) : R :=
  IZR (Float.mul64 (dimXinCM_float p) (dimYinCM_float p)).

(** [m_dimx * m_dimy * oneElementPowerinW]: the [int] product, converted to
    [float], times the [float] constant. *)
Definition maxPowerinW (p : SolarPanel) : R :=
  IZR (Float.mul32 (Float.of_int (Int32.mul (m_dimx p) (m_dimy p)))
                   oneElementPowerinW).

Definition shrinkXto (p : SolarPanel) (nelements : Z) : SolarPanel :=
  {| m_dimx := nelements; m_dimy := m_dimy p |}.
Definition shrinkYto (p : SolarPanel) (nelements : Z) : SolarPanel :=
  {| m_dimx := m_dimx p; m_dimy := nelements |}.

(** ** [class PanelSetup] *)

Record PanelSetup : Type := mkPanelSetup {
  m_orientationAngle : R;
  m_panel : SolarPanel
}.

(** [PanelSetup(double angle = 0, const SolarPanel& panel = SolarPanel(20, 30))]
    with both arguments defaulted. *)
Definition PanelSetup_default : PanelSetup :=
  {| m_orientationAngle := 0; m_panel := mkSolarPanel 20 30 |}.

(** The same constructor with the panel defaulted. *)
Definition PanelSetup_angle (angle : R) : PanelSetup :=
  {| m_orientationAngle := angle; m_panel := mkSolarPanel 20 30 |}.

Definition currentPower (s : PanelSetup) (angleInRadians : R) : R :=
  if Rlt_dec 0 (cos angleInRadians)
  then maxPowerinW (m_panel s) * cos angleInRadians
  else 0.

(** [x / y] of the program: no value when [y] is zero. *)
Definition checked_div (x y : R) : option R :=
  if Req_dec_T y 0 then None else Some (x / y).

Definition efficiency (s : PanelSetup) (angleInRadians : R) : option R :=
  if Rlt_dec 0 (cos angleInRadians)
  then checked_div (100 * currentPower s angleInRadians)
                   (maxPowerinW (m_panel s))
  else Some 0.

Definition getAngle (s : PanelSetup) : R := m_orientationAngle s.

(** [setAngle] returns the assigned value and updates the setup. *)
Definition setAngle (s : PanelSetup) (newangleInRadians : R)
  : R * PanelSetup :=
  (newangleInRadians,
   {| m_orientationAngle := newangleInRadians; m_panel := m_panel s |}).

Definition getPanel (s : PanelSetup) : SolarPanel := m_panel s.

Definition setNPanel (s : PanelSetup) (nx ny : Z) : PanelSetup :=
  {| m_orientationAngle := m_orientationAngle s;
     m_panel := shrinkYto (shrinkXto (m_panel s) nx) ny |}.

(** ** [struct LightSource] *)

Record LightSource : Type := mkLightSource {
  m_SourceAngle : R
}.

Definition LightSource_new : LightSource := {| m_SourceAngle := 0 |}.

Definition setSourceAngle (l : LightSource) (LightSourceAngle : R)
  : LightSource :=
  {| m_SourceAngle := LightSourceAngle |}.
Definition moveSourceAngleBy (l : LightSource) (dSourceAngle : R)
  : LightSource :=
  {| m_SourceAngle := m_SourceAngle l + dSourceAngle |}.
Definition getSourceAngle (l : LightSource) : R := m_SourceAngle l.

(** ** [LuminationAngle] *)

Definition LuminationAngle (somesetup : PanelSetup)
    (somelightsource : LightSource) : R :=
  if Rlt_dec (getAngle somesetup) 0
  then pi / 2 - getSourceAngle somelightsource + getAngle somesetup
  else pi / 2 + getSourceAngle somelightsource - getAngle somesetup.

(** ** [class SolarPlant : protected PanelSetup] *)

Record SolarPlant : Type := mkSolarPlant {
  plant_base : PanelSetup;          (* the base-class subobject *)
  m_setups : list PanelSetup        (* PanelSetup m_setups[10] *)
}.

Definition wf_plant (p : SolarPlant) : Prop := length (m_setups p) = 10%nat.

(** [SolarPlant() = default]: every member is default-constructed. *)
Definition SolarPlant_default : SolarPlant :=
  {| plant_base := PanelSetup_default;
     m_setups := replicate 10 PanelSetup_default |}.

(** [SolarPlant(const PanelSetup setups[10]) { }]: the body is empty, so the
    members are default-constructed and [setups] is not read. *)
Definition SolarPlant_of_array (setups : list PanelSetup) : SolarPlant :=
  {| plant_base := PanelSetup_default;
     m_setups := replicate 10 PanelSetup_default |}.

(** [m_setups[i]] for reading, [i] in [0..9]. *)
Definition slot (p : SolarPlant) (i : nat) : PanelSetup :=
  nth i (m_setups p) PanelSetup_default.

Definition setPanelSetup (p : SolarPlant) (setup : PanelSetup) (index : Z)
  : option SolarPlant :=
  if ((0 <=? index) && (index <? 10))%Z
  then Some {| plant_base := plant_base p;
               m_setups := <[Z.to_nat index := setup]> (m_setups p) |}
  else None.

(** One turn of the loop body of [currentOutput]. *)
Definition currentOutput_step (p : SolarPlant) (source : LightSource)
    (output : R) (i : nat) : R :=
  output + currentPower (slot p i) (LuminationAngle (slot p i) source).

(** [for (int i = 0; i < 10; i++) output += ...], from [output = 0]. *)
Definition currentOutput (p : SolarPlant) (source : LightSource) : R :=
  fold_left (currentOutput_step p source) (seq 0 10) 0.

(** The sum of a list of reals, as the specification writes it. *)
Definition Rsum (l : list R) : R := foldr Rplus 0 l.

(** ** The rest of [SolarPlant] and the driver *)

(** [setNelementXYofaPanel]: the panel of slot [index] is resized in place,
    through the reference [getPanel()] returns; the index is not checked. *)
Definition setNelementXYofaPanel (p : SolarPlant) (nx ny : Z) (index : Z)
  : option SolarPlant :=
  if ((0 <=? index) && (index <? 10))%Z
  then
    let s := slot p (Z.to_nat index) in
    Some {| plant_base := plant_base p;
            m_setups :=
              <[Z.to_nat index :=
                 {| m_orientationAngle := m_orientationAngle s;
                    m_panel := shrinkYto (shrinkXto (getPanel s) nx) ny |}]>
              (m_setups p) |}
  else None.

(** Sequencing of plant updates: a write outside the array ends the run. *)
Definition and_then (acc : option SolarPlant)
    (f : SolarPlant -> option SolarPlant) : option SolarPlant :=
  match acc with
  | Some q => f q
  | None => None
  end.

(** [for (...) powerPlant.setPanelSetup(setup, i);] over the given indices. *)
Definition install_all (setup : PanelSetup) (indices : list Z)
    (p : option SolarPlant) : option SolarPlant :=
  fold_left (fun acc i => and_then acc (fun q => setPanelSetup q setup i))
            indices p.

(** The loop of [main] over [{0, 1, 2, 3}]: install, then resize. *)
Definition install_resized (setup : PanelSetup) (nx ny : Z)
    (indices : list Z) (p : option SolarPlant) : option SolarPlant :=
  fold_left
    (fun acc element =>
       and_then (and_then acc (fun q => setPanelSetup q setup element))
                (fun q => setNelementXYofaPanel q nx ny element))
    indices p.

(** [PanelSetup testSetup(-pi / 2, SolarPanel(10, 10)); testSetup.setNPanel(2,3);] *)
Definition testSetup : PanelSetup :=
  setNPanel (mkPanelSetup (- pi / 2) (mkSolarPanel 10 10)) 2 3.

(** The plant of Exercise 5 in [main], built over the plant at hand. *)
Definition main_mixed_plant (powerPlant : SolarPlant) : option SolarPlant :=
  install_all (PanelSetup_angle (- pi / 4)) [6; 7; 8; 9]%Z
    (install_all (PanelSetup_angle (pi / 2)) [4; 5]%Z
       (install_resized (PanelSetup_angle (pi / 4)) 10 10 [0; 1; 2; 3]%Z
          (Some powerPlant))).

(** ** Sample values *)

(** An array of ten mounts at angle 1 carrying 10 x 10 modules. *)
Definition ten_tilted : list PanelSetup :=
  replicate 10 (mkPanelSetup 1 (mkSolarPanel 10 10)).

(** A mount carrying a module without elements. *)
Definition empty_mount : PanelSetup := mkPanelSetup 0 (mkSolarPanel 0 0).

(** ** Auxiliary facts *)

Lemma wrap_in_range (z : Z) : Int32.in_range z -> Int32.wrap z = z.
Proof.
  unfold Int32.in_range, Int32.min_signed, Int32.max_signed, Int32.wrap.
  intros Hz. rewrite Z.mod_small; lia.
Qed.

Lemma mul_no_overflow (x y : Z) :
  Int32.in_range (x * y) -> Int32.mul x y = (x * y)%Z.
Proof. apply wrap_in_range. Qed.

Lemma round_even_exact (prec z : Z) :
  (Z.abs z <= 2 ^ prec)%Z -> Float.round_even prec z = z.
Proof.
  intros Hz. unfold Float.round_even.
  destruct (Z.leb_spec (Z.abs z) (2 ^ prec)); [reflexivity | lia].
Qed.

(** A product whose operands and result fit in 24 bits is exact. *)
Lemma mul32_of_int_exact (z c : Z) :
  (Z.abs z <= 2 ^ 24)%Z -> (Z.abs (z * c) <= 2 ^ 24)%Z ->
  Float.mul32 (Float.of_int z) c = (z * c)%Z.
Proof.
  intros Hz Hzc. unfold Float.mul32, Float.of_int.
  rewrite (round_even_exact 24 z) by exact Hz.
  apply round_even_exact. exact Hzc.
Qed.

Lemma maxPowerinW_small (x y : Z) :
  (Z.abs (x * y * 15) <= 2 ^ 24)%Z ->
  maxPowerinW (mkSolarPanel x y) = IZR x * IZR y * 15.
Proof.
  intros Hfit. unfold maxPowerinW, oneElementPowerinW. simpl.
  rewrite mul_no_overflow
    by (unfold Int32.in_range, Int32.min_signed, Int32.max_signed; lia).
  rewrite mul32_of_int_exact by lia.
  rewrite !mult_IZR. reflexivity.
Qed.

Lemma areainCM2_small (x y : Z) :
  (Z.abs (x * 6) <= 2 ^ 24)%Z -> (Z.abs (y * 10) <= 2 ^ 24)%Z ->
  areainCM2 (mkSolarPanel x y) = IZR x * IZR y * 60.
Proof.
  intros Hx Hy.
  unfold areainCM2, dimXinCM_float, dimYinCM_float, oneElementX, oneElementY.
  simpl.
  rewrite !mul32_of_int_exact by lia.
  unfold Float.mul64. rewrite round_even_exact by nia.
  rewrite !mult_IZR. lra.
Qed.

Lemma maxPowerinW_default : maxPowerinW (m_panel PanelSetup_default) = 9000.
Proof.
  simpl. rewrite maxPowerinW_small by (simpl; lia). lra.
Qed.

(** The program's [pi] lies strictly below the mathematical constant. *)
Lemma pi_lt_PI : pi < PI.
Proof.
  destruct (PI_2_3_7_ineq 2) as [Hlow _].
  unfold pi.
  cbv [sum_f_R0 tg_alt PI_2_3_7_tg Ratan_seq Nat.mul Nat.add] in Hlow.
  simpl in Hlow. lra.
Qed.

Lemma cos_half_pi_pos : 0 < cos (pi / 2).
Proof.
  pose proof pi_lt_PI as Hpi.
  apply cos_gt_0; unfold pi in *; lra.
Qed.

Lemma cos_1_lt_1 : cos 1 < 1.
Proof.
  pose proof PI2_1 as H1. pose proof PI_RGT_0 as H0.
  assert (Hdec : cos 1 < cos 0) by (apply cos_decreasing_1; lra).
  rewrite cos_0 in Hdec. exact Hdec.
Qed.

Lemma currentPower_lit (s : PanelSetup) (a : R) :
  0 < cos a -> currentPower s a = maxPowerinW (m_panel s) * cos a.
Proof.
  intros Hc. unfold currentPower.
  destruct (Rlt_dec 0 (cos a)) as [_ | Hn]; [reflexivity | contradiction].
Qed.

Lemma currentPower_dark (s : PanelSetup) (a : R) :
  cos a <= 0 -> currentPower s a = 0.
Proof.
  intros Hc. unfold currentPower.
  destruct (Rlt_dec 0 (cos a)) as [Hp | _]; [lra | reflexivity].
Qed.

Lemma currentPower_nonneg (s : PanelSetup) (a : R) :
  0 <= maxPowerinW (m_panel s) -> 0 <= currentPower s a.
Proof.
  intros Hp. unfold currentPower.
  destruct (Rlt_dec 0 (cos a)) as [Hc | _]; [| lra].
  apply Rmult_le_pos; lra.
Qed.

Lemma Rsum_nonneg (l : list R) : Forall (fun x => 0 <= x) l -> 0 <= Rsum l.
Proof.
  induction 1 as [| x l Hx _ IH]; unfold Rsum in *; simpl; lra.
Qed.

Section Loop.

Variable f : PanelSetup -> R.

(** The indexed loop over the tail [l] of an array [pre ++ l] adds up
    [f] over [l]. *)
Lemma indexed_loop_sum (l pre : list PanelSetup) (acc : R) :
  fold_left (fun output i => output + f (nth i (pre ++ l) PanelSetup_default))
            (seq (length pre) (length l)) acc
  = acc + Rsum (map f l).
Proof.
  revert pre acc.
  induction l as [| x l IH]; intros pre acc; simpl.
  - lra.
  - rewrite nth_middle.
    replace (pre ++ x :: l) with ((pre ++ [x]) ++ l)
      by (rewrite <- app_assoc; reflexivity).
    replace (S (length pre)) with (length (pre ++ [x]))
      by (rewrite length_app; simpl; lia).
    rewrite IH. unfold Rsum. simpl. lra.
Qed.

End Loop.

Lemma currentOutput_as_sum (p : SolarPlant) (source : LightSource) :
  wf_plant p ->
  currentOutput p source
  = Rsum (map (fun m => currentPower m (LuminationAngle m source))
              (m_setups p)).
Proof.
  intros Hwf. unfold currentOutput, wf_plant in *.
  pose proof (indexed_loop_sum
                (fun m => currentPower m (LuminationAngle m source))
                (m_setups p) [] 0) as Hloop.
  simpl in Hloop. rewrite Hwf in Hloop.
  rewrite Rplus_0_l in Hloop. exact Hloop.
Qed.

Lemma wf_plant_default : wf_plant SolarPlant_default.
Proof. reflexivity. Qed.

(** ** Construction of a plant from an array *)

(** Whatever array is supplied, the array constructor builds the default
    plant. *)
Lemma SolarPlant_of_array_default (setups : list PanelSetup) :
  SolarPlant_of_array setups = SolarPlant_default.
Proof. reflexivity. Qed.

(** C1: the array constructor is meant to copy the ten supplied mounts into
    the slots of the new plant.  On the array [ten_tilted] it does not:
    slot 0 of the supplied array is the mount at angle 1 with a 10 x 10
    module, slot 0 of the constructed plant is the default mount (angle 0,
    20 x 30 module), and the two differ. *)
Theorem SolarPlant_of_array_drops_setups :
  length ten_tilted = 10%nat /\
  ten_tilted !! 0%nat = Some (mkPanelSetup 1 (mkSolarPanel 10 10)) /\
  m_setups (SolarPlant_of_array ten_tilted) !! 0%nat
    = Some PanelSetup_default /\
  m_setups (SolarPlant_of_array ten_tilted) !! 0%nat <> ten_tilted !! 0%nat.
Proof.
  repeat split; try reflexivity.
  simpl. intros Heq. inversion Heq as [[Hangle Hx Hy]].
Qed.

(** ** The incidence angle *)

(** C2, as stated, fails at the default mount (orientation 0) under a
    source at angle 0: the incidence angle is the program's [pi / 2], which
    is below the mathematical one, and the power there is not zero. *)
Lemma currentPower_at_half_pi_nonzero :
  currentPower PanelSetup_default
    (LuminationAngle PanelSetup_default LightSource_new) <> 0.
Proof.
  unfold LuminationAngle, getAngle, getSourceAngle. simpl.
  destruct (Rlt_dec 0 0) as [Habs | _]; [lra |].
  replace (pi / 2 + 0 - 0) with (pi / 2) by lra.
  pose proof cos_half_pi_pos as Hc.
  rewrite currentPower_lit by exact Hc.
  rewrite maxPowerinW_default.
  nra.
Qed.

(** C2 (amended): the incidence angle is [pi / 2 - s + o] for a negative
    orientation [o] and [pi / 2 + s - o] otherwise, with [pi] the program's
    constant 3.1415; at orientation 0 and source angle 0 it is [pi / 2],
    where the cosine is strictly positive, so that the power of a mount
    there is its module's peak power times [cos (pi / 2)]. *)
Theorem LuminationAngle_branches (o s : R) (panel : SolarPanel) :
  (o < 0 ->
   LuminationAngle (mkPanelSetup o panel) (mkLightSource s)
   = pi / 2 - s + o) /\
  (0 <= o ->
   LuminationAngle (mkPanelSetup o panel) (mkLightSource s)
   = pi / 2 + s - o) /\
  LuminationAngle (mkPanelSetup 0 panel) (mkLightSource 0) = pi / 2 /\
  0 < cos (pi / 2) /\
  currentPower (mkPanelSetup 0 panel)
    (LuminationAngle (mkPanelSetup 0 panel) (mkLightSource 0))
  = maxPowerinW panel * cos (pi / 2).
Proof.
  assert (Hzero : LuminationAngle (mkPanelSetup 0 panel) (mkLightSource 0)
                  = pi / 2).
  { unfold LuminationAngle, getAngle, getSourceAngle. simpl.
    destruct (Rlt_dec 0 0); lra. }
  repeat split.
  - intros Ho. unfold LuminationAngle, getAngle, getSourceAngle. simpl.
    destruct (Rlt_dec o 0); [reflexivity | contradiction].
  - intros Ho. unfold LuminationAngle, getAngle, getSourceAngle. simpl.
    destruct (Rlt_dec o 0); [lra | reflexivity].
  - exact Hzero.
  - exact cos_half_pi_pos.
  - rewrite Hzero. apply currentPower_lit. exact cos_half_pi_pos.
Qed.

Lemma LuminationAngle_branches_witness :
  LuminationAngle (mkPanelSetup (-1) (mkSolarPanel 10 10)) (mkLightSource 2)
  = pi / 2 - 2 + -1 /\
  LuminationAngle (mkPanelSetup 1 (mkSolarPanel 10 10)) (mkLightSource 2)
  = pi / 2 + 2 - 1.
Proof.
  split.
  - apply (proj1 (LuminationAngle_branches (-1) 2 (mkSolarPanel 10 10))). lra.
  - apply (proj1 (proj2 (LuminationAngle_branches 1 2 (mkSolarPanel 10 10)))).
    lra.
Defined.

(** ** The output of a plant *)



(** ** The power of a mount *)

(** C4: the power of a mount at incidence angle [a] is the peak power of
    its module times [cos a] when [cos a] is positive, and 0 otherwise.
    [currentPower] is a function of the mount and the angle alone and
    returns only the power (the method is [const]). *)
Theorem currentPower_cases (s : PanelSetup) (a : R) :
  (0 < cos a -> currentPower s a = maxPowerinW (m_panel s) * cos a) /\
  (cos a <= 0 -> currentPower s a = 0).
Proof.
  split; [apply currentPower_lit | apply currentPower_dark].
Qed.

Lemma currentPower_cases_witness :
  currentPower PanelSetup_default 0
  = maxPowerinW (m_panel PanelSetup_default) * cos 0 /\
  currentPower PanelSetup_default PI = 0.
Proof.
  split.
  - apply (proj1 (currentPower_cases PanelSetup_default 0)).
    rewrite cos_0. lra.
  - apply (proj2 (currentPower_cases PanelSetup_default PI)).
    rewrite cos_PI. lra.
Defined.

(** ** Area and peak power of a module *)

(** Beyond the range of [int] the product of the counts wraps: for 65536 x
    65536 elements it is 2^32, that is 0, and so is the peak power. *)
Lemma maxPowerinW_overflow :
  (0 < 65536)%Z /\ Int32.in_range 65536 /\
  maxPowerinW (mkSolarPanel 65536 65536) = 0 /\
  maxPowerinW (mkSolarPanel 65536 65536)
  <> IZR 65536 * IZR 65536 * IZR oneElementPowerinW.
Proof.
  assert (Hzero : maxPowerinW (mkSolarPanel 65536 65536) = 0)
    by reflexivity.
  split; [lia |].
  split; [unfold Int32.in_range, Int32.min_signed, Int32.max_signed; lia |].
  split; [exact Hzero |].
  rewrite Hzero. unfold oneElementPowerinW. lra.
Qed.

(** C5, as stated, fails where a [float] product has more than 24
    significant bits: the module of 1118483 x 1 elements has the peak power
    16777244, not 1118483 * 15 = 16777245, and the module of 5592407 x 1
    elements has the area 335544400, not 5592407 * 60 = 335544420. *)
Lemma SolarPanel_products_rounded :
  maxPowerinW (mkSolarPanel 1118483 1) = 16777244 /\
  maxPowerinW (mkSolarPanel 1118483 1)
  <> IZR 1118483 * IZR 1 * IZR oneElementPowerinW /\
  areainCM2 (mkSolarPanel 5592407 1) = 335544400 /\
  areainCM2 (mkSolarPanel 5592407 1)
  <> IZR 5592407 * IZR 1 * IZR oneElementX * IZR oneElementY.
Proof.
  assert (Hpower : maxPowerinW (mkSolarPanel 1118483 1) = 16777244)
    by reflexivity.
  assert (Harea : areainCM2 (mkSolarPanel 5592407 1) = 335544400)
    by reflexivity.
  split; [exact Hpower |].
  split; [rewrite Hpower; unfold oneElementPowerinW; lra |].
  split; [exact Harea |].
  rewrite Harea. unfold oneElementX, oneElementY. lra.
Qed.

(** C5 (amended): for positive element counts [X], [Y] the area is
    [X * Y * 6 * 10] provided [6 * X] and [10 * Y] do not exceed 2^24, and
    the peak power is [X * Y * 15] provided [15 * X * Y] does not exceed
    2^24 (the [float] products are then exact, and [X * Y] fits in an
    [int]); a 10 x 10 module has area 6000 and peak power 1500. *)
Theorem SolarPanel_area_power :
  (forall X Y : Z,
     (0 < X)%Z -> (0 < Y)%Z ->
     ((6 * X <= 2 ^ 24)%Z -> (10 * Y <= 2 ^ 24)%Z ->
      areainCM2 (mkSolarPanel X Y)
      = IZR X * IZR Y * IZR oneElementX * IZR oneElementY) /\
     ((15 * (X * Y) <= 2 ^ 24)%Z ->
      maxPowerinW (mkSolarPanel X Y)
      = IZR X * IZR Y * IZR oneElementPowerinW)) /\
  oneElementX = 6%Z /\ oneElementY = 10%Z /\ oneElementPowerinW = 15%Z /\
  areainCM2 (mkSolarPanel 10 10) = 6000 /\
  maxPowerinW (mkSolarPanel 10 10) = 1500.
Proof.
  split.
  { intros X Y HX HY. split.
    - intros HfitX HfitY. rewrite areainCM2_small by lia.
      unfold oneElementX, oneElementY. lra.
    - intros Hfit. rewrite maxPowerinW_small by nia.
      unfold oneElementPowerinW. lra. }
  split; [reflexivity |]. split; [reflexivity |]. split; [reflexivity |].
  split.
  - rewrite areainCM2_small by (simpl; lia). lra.
  - rewrite maxPowerinW_small by (simpl; lia). lra.
Qed.

Lemma SolarPanel_area_power_witness :
  areainCM2 (mkSolarPanel 20 30)
  = IZR 20 * IZR 30 * IZR oneElementX * IZR oneElementY /\
  maxPowerinW (mkSolarPanel 20 30)
  = IZR 20 * IZR 30 * IZR oneElementPowerinW.
Proof.
  destruct (proj1 SolarPanel_area_power 20%Z 30%Z) as [Harea Hpower];
    [lia | lia |].
  split; [apply Harea; lia | apply Hpower; lia].
Defined.

(** ** Efficiency *)

Lemma checked_div_nonzero (x y : R) : y <> 0 -> checked_div x y = Some (x / y).
Proof.
  intros Hy. unfold checked_div.
  destruct (Req_dec_T y 0) as [Heq | _]; [contradiction | reflexivity].
Qed.

Lemma checked_div_zero (x : R) : checked_div x 0 = None.
Proof.
  unfold checked_div.
  destruct (Req_dec_T 0 0) as [_ | Hne]; [reflexivity | contradiction].
Qed.

Lemma efficiency_lit (s : PanelSetup) (a : R) :
  0 < cos a ->
  efficiency s a
  = checked_div (100 * currentPower s a) (maxPowerinW (m_panel s)).
Proof.
  intros Hc. unfold efficiency.
  destruct (Rlt_dec 0 (cos a)) as [_ | Hn]; [reflexivity | contradiction].
Qed.

Lemma efficiency_dark (s : PanelSetup) (a : R) :
  cos a <= 0 -> efficiency s a = Some 0.
Proof.
  intros Hc. unfold efficiency.
  destruct (Rlt_dec 0 (cos a)) as [Hp | _]; [lra | reflexivity].
Qed.

(** A module with no element along one side has no peak power. *)
Lemma maxPowerinW_zero_size (p : SolarPanel) :
  m_dimx p = 0%Z \/ m_dimy p = 0%Z -> maxPowerinW p = 0.
Proof.
  intros Hdim. unfold maxPowerinW, Int32.mul.
  assert (Hprod : (m_dimx p * m_dimy p = 0)%Z) by (destruct Hdim; lia).
  rewrite Hprod. reflexivity.
Qed.

(** C6: the efficiency at incidence angle [a] is 0 when [cos a] is not
    positive; when it is positive and the peak power of the module is not
    zero it is [100 * currentPower a / peakPower].  With a non-zero peak
    power the division by zero is never reached (the efficiency always has
    a value); with a zero peak power, as for a zero-size module, the
    efficiency divides by zero whenever [cos a] is positive. *)
Theorem efficiency_division (s : PanelSetup) (a : R) :
  (cos a <= 0 -> efficiency s a = Some 0) /\
  (0 < cos a -> maxPowerinW (m_panel s) <> 0 ->
   efficiency s a
   = Some (100 * currentPower s a / maxPowerinW (m_panel s))) /\
  (maxPowerinW (m_panel s) <> 0 -> efficiency s a <> None) /\
  (0 < cos a -> maxPowerinW (m_panel s) = 0 -> efficiency s a = None) /\
  (0 < cos a -> m_dimx (m_panel s) = 0%Z \/ m_dimy (m_panel s) = 0%Z ->
   efficiency s a = None).
Proof.
  assert (Hzero : 0 < cos a -> maxPowerinW (m_panel s) = 0 ->
                  efficiency s a = None).
  { intros Hc Hp. rewrite efficiency_lit by exact Hc.
    rewrite Hp. apply checked_div_zero. }
  repeat split.
  - apply efficiency_dark.
  - intros Hc Hp. rewrite efficiency_lit by exact Hc.
    apply checked_div_nonzero. exact Hp.
  - intros Hp. destruct (Rlt_dec 0 (cos a)) as [Hc | Hc].
    + rewrite efficiency_lit by exact Hc.
      rewrite checked_div_nonzero by exact Hp. discriminate.
    + rewrite efficiency_dark by lra. discriminate.
  - exact Hzero.
  - intros Hc Hdim. apply Hzero; [exact Hc |].
    apply maxPowerinW_zero_size. exact Hdim.
Qed.

Lemma efficiency_division_witness :
  efficiency PanelSetup_default PI = Some 0 /\
  efficiency PanelSetup_default 0
  = Some (100 * currentPower PanelSetup_default 0
          / maxPowerinW (m_panel PanelSetup_default)) /\
  efficiency PanelSetup_default 0 <> None /\
  efficiency empty_mount 0 = None.
Proof.
  assert (Hc0 : 0 < cos 0) by (rewrite cos_0; lra).
  assert (Hpi : cos PI <= 0) by (rewrite cos_PI; lra).
  assert (Hp : maxPowerinW (m_panel PanelSetup_default) <> 0)
    by (rewrite maxPowerinW_default; lra).
  repeat split.
  - apply (proj1 (efficiency_division PanelSetup_default PI)). exact Hpi.
  - apply (proj1 (proj2 (efficiency_division PanelSetup_default 0)));
      assumption.
  - apply (proj1 (proj2 (proj2 (efficiency_division PanelSetup_default 0)))).
    exact Hp.
  - apply (proj2 (proj2 (proj2 (proj2
             (efficiency_division empty_mount 0)))));
      [exact Hc0 | left; reflexivity].
Defined.

(** ** Monotonicity of the power *)

(** C7, as stated, fails for a mount whose module has no elements: the
    angles 0 and 1 both lie in the open interval around 0 of half-width
    [PI / 2] (and of half-width [pi / 2]), [cos 0 > cos 1], and the power
    is 0 at both. *)
Lemma currentPower_not_monotone_empty :
  (- (PI / 2) < 0 < PI / 2) /\ (- (PI / 2) < 1 < PI / 2) /\
  (- (pi / 2) < 0 < pi / 2) /\ (- (pi / 2) < 1 < pi / 2) /\
  cos 0 > cos 1 /\
  ~ currentPower empty_mount 0 > currentPower empty_mount 1.
Proof.
  pose proof PI2_1 as H1. pose proof cos_1_lt_1 as Hcos.
  assert (Hpow : forall a, currentPower empty_mount a = 0).
  { intros a. unfold currentPower.
    destruct (Rlt_dec 0 (cos a)); [| reflexivity].
    rewrite maxPowerinW_zero_size by (left; reflexivity). lra. }
  repeat split; try (unfold pi; lra).
  - rewrite cos_0. exact Hcos.
  - rewrite !Hpow. lra.
Qed.

(** C7 (amended): for a mount whose module has a non-negative peak power
    and incidence angles [a1], [a2] both strictly between [-PI/2] and
    [PI/2], [cos a1 > cos a2] gives [currentPower a1 >= currentPower a2];
    the inequality between the powers is not strict. *)
Theorem currentPower_monotone_in_cos (s : PanelSetup) (a1 a2 : R) :
  0 <= maxPowerinW (m_panel s) ->
  - (PI / 2) < a1 < PI / 2 ->
  - (PI / 2) < a2 < PI / 2 ->
  cos a1 > cos a2 ->
  currentPower s a1 >= currentPower s a2.
Proof.
  intros Hp [Hl1 Hu1] [Hl2 Hu2] Hcos.
  pose proof (cos_gt_0 a1 Hl1 Hu1) as Hc1.
  pose proof (cos_gt_0 a2 Hl2 Hu2) as Hc2.
  rewrite !currentPower_lit by assumption.
  apply Rle_ge. apply Rmult_le_compat_l; lra.
Qed.

Lemma currentPower_monotone_in_cos_witness :
  currentPower PanelSetup_default 0 >= currentPower PanelSetup_default 1.
Proof.
  pose proof PI2_1 as H1.
  apply (currentPower_monotone_in_cos PanelSetup_default 0 1).
  - rewrite maxPowerinW_default. lra.
  - lra.
  - lra.
  - rewrite cos_0. exact cos_1_lt_1.
Defined.

(** ** Installing a mount *)

(** C8: installing a mount [m] at an index [i] in [0..9] of a plant puts
    [m] in slot [i] and leaves the other nine slots (and the number of
    slots) as they were. *)
Theorem setPanelSetup_frame (p : SolarPlant) (m : PanelSetup) (i : Z) :
  wf_plant p -> (0 <= i < 10)%Z ->
  exists p' : SolarPlant,
    setPanelSetup p m i = Some p' /\
    wf_plant p' /\
    m_setups p' !! Z.to_nat i = Some m /\
    slot p' (Z.to_nat i) = m /\
    (forall j : nat, j <> Z.to_nat i -> m_setups p' !! j = m_setups p !! j) /\
    (forall j : nat, j <> Z.to_nat i -> slot p' j = slot p j).
Proof.
  intros Hwf Hi. unfold wf_plant in Hwf.
  assert (Hlt : (Z.to_nat i < length (m_setups p))%nat) by lia.
  eexists. split.
  { unfold setPanelSetup.
    replace ((0 <=? i) && (i <? 10))%Z with true by lia.
    reflexivity. }
  simpl. unfold wf_plant, slot. simpl.
  assert (Hat : <[Z.to_nat i := m]> (m_setups p) !! Z.to_nat i = Some m)
    by (apply list_lookup_insert_eq; exact Hlt).
  assert (Hoff : forall j : nat, j <> Z.to_nat i ->
            <[Z.to_nat i := m]> (m_setups p) !! j = m_setups p !! j)
    by (intros j Hj; apply list_lookup_insert_ne; congruence).
  repeat split.
  - rewrite length_insert. exact Hwf.
  - exact Hat.
  - rewrite nth_lookup, Hat. reflexivity.
  - exact Hoff.
  - intros j Hj. rewrite !nth_lookup, Hoff by exact Hj. reflexivity.
Qed.

Lemma setPanelSetup_frame_witness :
  exists p' : SolarPlant,
    setPanelSetup SolarPlant_default empty_mount 3 = Some p' /\
    wf_plant p' /\
    m_setups p' !! Z.to_nat 3 = Some empty_mount /\
    slot p' (Z.to_nat 3) = empty_mount /\
    (forall j : nat, j <> Z.to_nat 3 ->
       m_setups p' !! j = m_setups SolarPlant_default !! j) /\
    (forall j : nat, j <> Z.to_nat 3 -> slot p' j = slot SolarPlant_default j).
Proof.
  apply (setPanelSetup_frame SolarPlant_default empty_mount 3).
  - reflexivity.
  - lia.
Defined.

(** ** Sign of the output *)

(** C9: in a plant whose ten modules all have a non-negative peak power,
    every mount delivers a non-negative power at every angle, and the
    output of the plant under any light source is non-negative. *)
Theorem currentOutput_nonneg (p : SolarPlant) (source : LightSource) :
  wf_plant p ->
  Forall (fun m => 0 <= maxPowerinW (m_panel m)) (m_setups p) ->
  Forall (fun m => forall a : R, 0 <= currentPower m a) (m_setups p) /\
  Forall (fun m => 0 <= currentPower m (LuminationAngle m source))
         (m_setups p) /\
  0 <= currentOutput p source.
Proof.
  intros Hwf Hpeak.
  assert (Hall : Forall (fun m => forall a : R, 0 <= currentPower m a)
                        (m_setups p)).
  { eapply Forall_impl; [exact Hpeak |].
    intros m Hm a. apply currentPower_nonneg. exact Hm. }
  assert (Hinc : Forall (fun m => 0 <= currentPower m (LuminationAngle m source))
                        (m_setups p)).
  { eapply Forall_impl; [exact Hall |]. intros m Hm. apply Hm. }
  repeat split; [exact Hall | exact Hinc |].
  rewrite currentOutput_as_sum by exact Hwf.
  apply Rsum_nonneg. apply Forall_fmap.
  eapply Forall_impl; [exact Hinc |]. intros m Hm. exact Hm.
Qed.

Lemma currentOutput_nonneg_witness :
  Forall (fun m => forall a : R, 0 <= currentPower m a)
         (m_setups SolarPlant_default) /\
  Forall (fun m => 0 <= currentPower m (LuminationAngle m LightSource_new))
         (m_setups SolarPlant_default) /\
  0 <= currentOutput SolarPlant_default LightSource_new.
Proof.
  apply (currentOutput_nonneg SolarPlant_default LightSource_new).
  - reflexivity.
  - simpl. repeat constructor; rewrite maxPowerinW_default; lra.
Defined.

(** * Further properties of the model *)

(** ** Resizing a module *)

(** X1: [setNPanel nx ny] is an absolute set.  Whatever module the mount
    carried, afterwards the orientation is unchanged and the module has the
    counts [nx] and [ny]; its area is [nx * ny * 60] when [6 * nx] and
    [10 * ny] do not exceed 2^24 in absolute value, and its peak power is
    [nx * ny * 15] when [15 * nx * ny] does not. *)
Theorem setNPanel_overwrites (s : PanelSetup) (nx ny : Z) :
  getAngle (setNPanel s nx ny) = getAngle s /\
  getPanel (setNPanel s nx ny) = mkSolarPanel nx ny /\
  ((Z.abs (6 * nx) <= 2 ^ 24)%Z -> (Z.abs (10 * ny) <= 2 ^ 24)%Z ->
   areainCM2 (getPanel (setNPanel s nx ny)) = IZR nx * IZR ny * 60) /\
  ((Z.abs (15 * (nx * ny)) <= 2 ^ 24)%Z ->
   maxPowerinW (getPanel (setNPanel s nx ny)) = IZR nx * IZR ny * 15).
Proof.
  split; [reflexivity |]. split; [reflexivity |]. split.
  - intros Hx Hy. apply areainCM2_small.
    + replace (nx * 6)%Z with (6 * nx)%Z by lia. exact Hx.
    + replace (ny * 10)%Z with (10 * ny)%Z by lia. exact Hy.
  - intros Hfit. apply maxPowerinW_small.
    replace (nx * ny * 15)%Z with (15 * (nx * ny))%Z by lia. exact Hfit.
Qed.

Lemma setNPanel_overwrites_witness :
  areainCM2 (getPanel (setNPanel (mkPanelSetup (- pi / 2)
                                    (mkSolarPanel 10 10)) 2 3))
  = IZR 2 * IZR 3 * 60 /\
  maxPowerinW (getPanel (setNPanel (mkPanelSetup (- pi / 2)
                                      (mkSolarPanel 10 10)) 2 3))
  = IZR 2 * IZR 3 * 15.
Proof.
  destruct (setNPanel_overwrites
              (mkPanelSetup (- pi / 2) (mkSolarPanel 10 10)) 2 3)
    as (_ & _ & Harea & Hpower).
  split; [apply Harea; simpl; lia | apply Hpower; simpl; lia].
Defined.

(** X2: despite its name, [shrinkXto] also enlarges: on a module with a
    positive count along Y, a count along X above the present one gives a
    strictly larger area, as long as the sides [6 * X] and [10 * Y] stay
    within 2^24 (where the [float] products are exact). *)
Theorem shrinkXto_can_grow (p : SolarPanel) (nelements : Z) :
  (0 < m_dimy p)%Z -> (10 * m_dimy p <= 2 ^ 24)%Z ->
  (- 2 ^ 24 <= 6 * m_dimx p)%Z -> (6 * nelements <= 2 ^ 24)%Z ->
  (m_dimx p < nelements)%Z ->
  areainCM2 p < areainCM2 (shrinkXto p nelements).
Proof.
  intros Hy HfitY HfitX HfitN Hx.
  destruct p as [x y]. unfold shrinkXto. simpl in *.
  rewrite !areainCM2_small by lia.
  apply IZR_lt in Hy. apply IZR_lt in Hx. nra.
Qed.

Lemma shrinkXto_can_grow_witness :
  areainCM2 (mkSolarPanel 2 3) < areainCM2 (shrinkXto (mkSolarPanel 2 3) 20).
Proof. apply (shrinkXto_can_grow (mkSolarPanel 2 3) 20); simpl; lia. Defined.

(** ** Bounds on power and efficiency *)

(** X3: a mount whose module has a non-negative peak power delivers, at
    every incidence angle, a power between 0 and that peak power; the peak
    is reached at incidence 0. *)
Theorem currentPower_bounds (s : PanelSetup) (a : R) :
  0 <= maxPowerinW (m_panel s) ->
  0 <= currentPower s a <= maxPowerinW (m_panel s) /\
  currentPower s 0 = maxPowerinW (m_panel s).
Proof.
  intros Hp. pose proof (COS_bound a) as [_ Hle].
  repeat split.
  - apply currentPower_nonneg. exact Hp.
  - unfold currentPower. destruct (Rlt_dec 0 (cos a)) as [Hc | _]; nra.
  - rewrite currentPower_lit by (rewrite cos_0; lra).
    rewrite cos_0. ring.
Qed.

Lemma currentPower_bounds_witness :
  0 <= currentPower PanelSetup_default 1
    <= maxPowerinW (m_panel PanelSetup_default) /\
  currentPower PanelSetup_default 0 = maxPowerinW (m_panel PanelSetup_default).
Proof.
  apply (currentPower_bounds PanelSetup_default 1).
  rewrite maxPowerinW_default. lra.
Defined.

(** With the quotient and the products taken in [R]. *)
Lemma efficiency_lit_value (s : PanelSetup) (a : R) :
  maxPowerinW (m_panel s) <> 0 -> 0 < cos a ->
  efficiency s a = Some (100 * cos a).
Proof.
  intros Hp Hc.
  rewrite efficiency_lit by exact Hc.
  rewrite checked_div_nonzero by exact Hp.
  rewrite currentPower_lit by exact Hc.
  f_equal. field. exact Hp.
Qed.

(** X4: whenever the peak power of the module is not zero, the efficiency
    has a value and that value lies between 0 and 100. *)
Theorem efficiency_bounds (s : PanelSetup) (a : R) :
  maxPowerinW (m_panel s) <> 0 ->
  exists e : R, efficiency s a = Some e /\ 0 <= e <= 100.
Proof.
  intros Hp. pose proof (COS_bound a) as [_ Hle].
  destruct (Rlt_dec 0 (cos a)) as [Hc | Hc].
  - exists (100 * cos a). split; [| lra].
    apply efficiency_lit_value; assumption.
  - exists 0. split; [| lra]. apply efficiency_dark. lra.
Qed.

Lemma efficiency_bounds_witness :
  exists e : R, efficiency testSetup 1 = Some e /\ 0 <= e <= 100.
Proof.
  apply (efficiency_bounds testSetup 1).
  replace (maxPowerinW (m_panel testSetup)) with 90 by reflexivity. lra.
Defined.

(** X6: the power is an even function of the incidence angle: it is the
    same at [a] and at [- a]. *)
Theorem currentPower_even (s : PanelSetup) (a : R) :
  currentPower s (- a) = currentPower s a.
Proof.
  unfold currentPower. rewrite cos_neg. reflexivity.
Qed.

(** ** Symmetry of the incidence angle *)

(** X7: the two branches of the resolver mirror each other: a mount tilted
    by [- o] under a source at [s] sees the same incidence angle as a mount
    tilted by [o] under a source at [- s], for every [o > 0] and whatever
    modules the two mounts carry. *)
Theorem LuminationAngle_mirror (o s : R) (panel panel' : SolarPanel) :
  0 < o ->
  LuminationAngle (mkPanelSetup (- o) panel) (mkLightSource s)
  = LuminationAngle (mkPanelSetup o panel') (mkLightSource (- s)).
Proof.
  intros Ho. unfold LuminationAngle, getAngle, getSourceAngle. simpl.
  destruct (Rlt_dec (- o) 0) as [_ | Hn]; [| lra].
  destruct (Rlt_dec o 0) as [Hneg | _]; lra.
Qed.

Lemma LuminationAngle_mirror_witness :
  LuminationAngle (mkPanelSetup (- (pi / 4)) (mkSolarPanel 20 30))
                  (mkLightSource 1)
  = LuminationAngle (mkPanelSetup (pi / 4) (mkSolarPanel 10 10))
                    (mkLightSource (- 1)).
Proof.
  apply (LuminationAngle_mirror (pi / 4) 1). unfold pi. lra.
Defined.

(** ** Sums over the slots *)

Lemma Rsum_cons (x : R) (l : list R) : Rsum (x :: l) = x + Rsum l.
Proof. reflexivity. Qed.

Lemma Rsum_map_le (f g : PanelSetup -> R) (l : list PanelSetup) :
  Forall (fun m => f m <= g m) l -> Rsum (map f l) <= Rsum (map g l).
Proof.
  induction 1 as [| x l Hx _ IH]; simpl; rewrite ?Rsum_cons; [| lra].
  unfold Rsum. simpl. lra.
Qed.

Lemma in_range_index (i : Z) :
  ((0 <=? i) && (i <? 10))%Z = true <-> (0 <= i < 10)%Z.
Proof. lia. Qed.

Lemma setPanelSetup_in_range (p : SolarPlant) (m : PanelSetup) (i : Z) :
  (0 <= i < 10)%Z ->
  setPanelSetup p m i
  = Some {| plant_base := plant_base p;
            m_setups := <[Z.to_nat i := m]> (m_setups p) |}.
Proof.
  intros Hi. unfold setPanelSetup.
  replace ((0 <=? i) && (i <? 10))%Z with true by lia. reflexivity.
Qed.

Lemma setPanelSetup_out_of_range (p : SolarPlant) (m : PanelSetup) (i : Z) :
  ~ (0 <= i < 10)%Z -> setPanelSetup p m i = None.
Proof.
  intros Hi. unfold setPanelSetup.
  replace ((0 <=? i) && (i <? 10))%Z with false by lia. reflexivity.
Qed.

(** ** Installing mounts, continued *)

(** X10: the last mount installed in a slot is the one that stays:
    installing [m1] and then [m2] at the same index is installing [m2]. *)
Theorem setPanelSetup_overwrite (p : SolarPlant) (m1 m2 : PanelSetup)
    (i : Z) :
  and_then (setPanelSetup p m1 i) (fun q => setPanelSetup q m2 i)
  = setPanelSetup p m2 i.
Proof.
  destruct (decide (0 <= i < 10)%Z) as [Hi | Hi].
  - rewrite !setPanelSetup_in_range by exact Hi. simpl.
    rewrite setPanelSetup_in_range by exact Hi. simpl.
    rewrite list_insert_insert_eq. reflexivity.
  - rewrite !setPanelSetup_out_of_range by exact Hi. reflexivity.
Qed.

(** X11: installations at two different indices can be done in either
    order. *)
Theorem setPanelSetup_commute (p : SolarPlant) (m1 m2 : PanelSetup)
    (i j : Z) :
  i <> j ->
  and_then (setPanelSetup p m1 i) (fun q => setPanelSetup q m2 j)
  = and_then (setPanelSetup p m2 j) (fun q => setPanelSetup q m1 i).
Proof.
  intros Hij.
  destruct (decide (0 <= i < 10)%Z) as [Hi | Hi];
    destruct (decide (0 <= j < 10)%Z) as [Hj | Hj].
  - rewrite (setPanelSetup_in_range p m1 i Hi),
            (setPanelSetup_in_range p m2 j Hj). simpl.
    rewrite setPanelSetup_in_range by exact Hj.
    rewrite setPanelSetup_in_range by exact Hi. simpl.
    rewrite list_insert_insert_ne by lia. reflexivity.
  - rewrite (setPanelSetup_in_range p m1 i Hi),
            (setPanelSetup_out_of_range p m2 j Hj). simpl.
    apply setPanelSetup_out_of_range. exact Hj.
  - rewrite (setPanelSetup_out_of_range p m1 i Hi),
            (setPanelSetup_in_range p m2 j Hj). simpl.
    symmetry. apply setPanelSetup_out_of_range. exact Hi.
  - rewrite (setPanelSetup_out_of_range p m1 i Hi),
            (setPanelSetup_out_of_range p m2 j Hj). reflexivity.
Qed.

Lemma setPanelSetup_commute_witness :
  and_then (setPanelSetup SolarPlant_default testSetup 2)
           (fun q => setPanelSetup q empty_mount 7)
  = and_then (setPanelSetup SolarPlant_default empty_mount 7)
             (fun q => setPanelSetup q testSetup 2).
Proof. apply (setPanelSetup_commute SolarPlant_default). lia. Defined.

(** ** Plants of identical mounts *)

(** X13: installing the same mount at the indices 0 to 9, as the first loop
    of [main] does, succeeds and leaves a plant all of whose ten slots hold
    that mount, whatever the plant held before. *)
Theorem install_all_uniform (p : SolarPlant) (m : PanelSetup) :
  wf_plant p ->
  install_all m [0; 1; 2; 3; 4; 5; 6; 7; 8; 9]%Z (Some p)
  = Some {| plant_base := plant_base p; m_setups := replicate 10 m |}.
Proof.
  destruct p as [base l]. unfold wf_plant. simpl. intros Hlen.
  do 10 (destruct l as [| ? l]; [discriminate Hlen |]).
  destruct l as [| ? l]; [| discriminate Hlen].
  reflexivity.
Qed.

Lemma install_all_uniform_witness :
  install_all testSetup [0; 1; 2; 3; 4; 5; 6; 7; 8; 9]%Z
              (Some SolarPlant_default)
  = Some {| plant_base := plant_base SolarPlant_default;
            m_setups := replicate 10 testSetup |}.
Proof. apply (install_all_uniform SolarPlant_default). reflexivity. Defined.

(** ** Resizing the module of a slot *)

(** X16: for an index [i] in [0..9], [setNelementXYofaPanel nx ny i] keeps
    the orientation of slot [i], gives its module the counts [nx] and [ny],
    and leaves the other nine slots as they were. *)
Theorem setNelementXYofaPanel_frame (p : SolarPlant) (nx ny i : Z) :
  wf_plant p -> (0 <= i < 10)%Z ->
  exists p' : SolarPlant,
    setNelementXYofaPanel p nx ny i = Some p' /\
    wf_plant p' /\
    getAngle (slot p' (Z.to_nat i)) = getAngle (slot p (Z.to_nat i)) /\
    getPanel (slot p' (Z.to_nat i)) = mkSolarPanel nx ny /\
    (forall j : nat, j <> Z.to_nat i -> slot p' j = slot p j).
Proof.
  intros Hwf Hi. unfold wf_plant in Hwf.
  assert (Hlt : (Z.to_nat i < length (m_setups p))%nat) by lia.
  eexists. split.
  { unfold setNelementXYofaPanel.
    replace ((0 <=? i) && (i <? 10))%Z with true by lia.
    reflexivity. }
  unfold wf_plant, slot. simpl.
  repeat split.
  - rewrite length_insert. exact Hwf.
  - rewrite (nth_lookup (<[_ := _]> _)).
    rewrite list_lookup_insert_eq by exact Hlt. reflexivity.
  - rewrite (nth_lookup (<[_ := _]> _)).
    rewrite list_lookup_insert_eq by exact Hlt. reflexivity.
  - intros j Hj. rewrite !nth_lookup.
    rewrite list_lookup_insert_ne by congruence. reflexivity.
Qed.

Lemma setNelementXYofaPanel_frame_witness :
  exists p' : SolarPlant,
    setNelementXYofaPanel SolarPlant_default 10 10 3 = Some p' /\
    wf_plant p' /\
    getAngle (slot p' (Z.to_nat 3))
    = getAngle (slot SolarPlant_default (Z.to_nat 3)) /\
    getPanel (slot p' (Z.to_nat 3)) = mkSolarPanel 10 10 /\
    (forall j : nat, j <> Z.to_nat 3 -> slot p' j = slot SolarPlant_default j).
Proof.
  apply (setNelementXYofaPanel_frame SolarPlant_default 10 10 3).
  - reflexivity.
  - lia.
Defined.

(** ** The plant of Exercise 5 *)

Lemma main_mixed_plant_slots (powerPlant : SolarPlant) :
  wf_plant powerPlant ->
  main_mixed_plant powerPlant
  = Some {| plant_base := plant_base powerPlant;
            m_setups :=
              replicate 4 (mkPanelSetup (pi / 4) (mkSolarPanel 10 10))
              ++ replicate 2 (PanelSetup_angle (pi / 2))
              ++ replicate 4 (PanelSetup_angle (- pi / 4)) |}.
Proof.
  destruct powerPlant as [base l]. unfold wf_plant. simpl. intros Hlen.
  do 10 (destruct l as [| ? l]; [discriminate Hlen |]).
  destruct l as [| ? l]; [| discriminate Hlen].
  reflexivity.
Qed.

(** X17: the three loops of Exercise 5 in [main] overwrite all ten slots:
    whatever the plant held, afterwards the slots 0 to 3 are at [pi / 4]
    with 10 x 10 modules, the slots 4 and 5 at [pi / 2] and the slots 6 to
    9 at [- pi / 4], both with the default 20 x 30 module. *)
Theorem main_mixed_plant_configuration (powerPlant : SolarPlant) :
  wf_plant powerPlant ->
  main_mixed_plant powerPlant
  = Some {| plant_base := plant_base powerPlant;
            m_setups :=
              replicate 4 (mkPanelSetup (pi / 4) (mkSolarPanel 10 10))
              ++ replicate 2 (PanelSetup_angle (pi / 2))
              ++ replicate 4 (PanelSetup_angle (- pi / 4)) |}.
Proof. apply main_mixed_plant_slots. Qed.

Lemma main_mixed_plant_configuration_witness :
  main_mixed_plant SolarPlant_default
  = Some {| plant_base := plant_base SolarPlant_default;
            m_setups :=
              replicate 4 (mkPanelSetup (pi / 4) (mkSolarPanel 10 10))
              ++ replicate 2 (PanelSetup_angle (pi / 2))
              ++ replicate 4 (PanelSetup_angle (- pi / 4)) |}.
Proof.
  apply (main_mixed_plant_configuration SolarPlant_default). reflexivity.
Defined.

(** X20: in a plant whose ten modules all have a non-negative peak power,
    the output under any light source is at most the sum of the peak powers
    of the ten modules. *)
Theorem currentOutput_at_most_peak (p : SolarPlant) (source : LightSource) :
  wf_plant p ->
  Forall (fun m => 0 <= maxPowerinW (m_panel m)) (m_setups p) ->
  currentOutput p source
  <= Rsum (map (fun m => maxPowerinW (m_panel m)) (m_setups p)).
Proof.
  intros Hwf Hpeak.
  rewrite currentOutput_as_sum by exact Hwf.
  apply Rsum_map_le.
  eapply Forall_impl; [exact Hpeak |].
  intros m Hm. simpl in *.
  pose proof (COS_bound (LuminationAngle m source)) as [_ Hle].
  unfold currentPower.
  destruct (Rlt_dec 0 (cos (LuminationAngle m source))); nra.
Qed.

Lemma currentOutput_at_most_peak_witness :
  currentOutput SolarPlant_default LightSource_new
  <= Rsum (map (fun m => maxPowerinW (m_panel m))
               (m_setups SolarPlant_default)).
Proof.
  apply (currentOutput_at_most_peak SolarPlant_default LightSource_new).
  - reflexivity.
  - simpl. repeat constructor; rewrite maxPowerinW_default; lra.
Defined.
